(** * Inventory storage of kustomizer: a shallow embedding of
    [pkg/inventory/storage.go] and the properties of its four operations.

    The storage keeps one ConfigMap per inventory.  The Kubernetes client,
    the JSON codec and the inventory data type live outside [storage.go]:
    the client and the codec are interfaces here (type classes), the
    inventory data type is modelled from the specification. *)

From Stdlib Require Import ZArith Ascii String.
From stdpp Require Import base strings list gmap fin_maps.

Local Open Scope string_scope.

(** ** Errors

    Go's [error] values that can flow through [storage.go], kept apart by
    their dynamic type. *)

(** [metav1.StatusReason], the part the API errors are told apart by. *)
Inductive StatusReason :=
| StatusReasonUnknown
| StatusReasonNotFound
| StatusReasonAlreadyExists
| StatusReasonConflict
| StatusReasonForbidden
| StatusReasonTimeout
| StatusReasonInternalError.

(** What the client can answer with: an API status or a failure below it. *)
Inductive client_error :=
| StatusError (reason : StatusReason) (message : string)
| TransportError (message : string).

(** What the JSON codec can answer with. *)
Inductive json_error :=
| SyntaxError (message : string)
| UnmarshalTypeError (message : string)
| UnsupportedValueError (message : string).

(** What the inventory's own functions fail with, in the words of the
    specification's taxonomy. *)
Inductive inventory_error :=
| InvalidArgument
| MalformedInput.

Inductive error :=
| ClientErr (e : client_error)
| JsonErr (e : json_error)
| InventoryErr (e : inventory_error)
| Errorf (message : string)                    (* fmt.Errorf without %w *)
| ErrorfW (message : string) (inner : error).  (* fmt.Errorf with %w *)

(** [apierrors.IsNotFound]: the reason of the status error, looked for
    through the wrappers of [%w]. *)
Fixpoint IsNotFound (err : error) : bool :=
  match err with
  | ClientErr (StatusError StatusReasonNotFound _) => true
  | ClientErr _ => false
  | JsonErr _ => false
  | InventoryErr _ => false
  | Errorf _ => false
  | ErrorfW _ inner => IsNotFound inner
  end.

(** The two results of a Go function that returns a value and an error. *)
Inductive result (E A : Type) :=
| Ok (a : A)
| Err (e : E).
Arguments Ok {E A} a.
Arguments Err {E A} e.

(** ** Kubernetes objects *)

(** [types.NamespacedName]. *)
Record ObjectKey := { key_Namespace : string; key_Name : string }.

(** [NamespacedName.String]: namespace, a slash, name. *)
Definition ObjectKey_String (k : ObjectKey) : string :=
  key_Namespace k +:+ "/" +:+ key_Name k.

(** [corev1.ConfigMap], with the fields [storage.go] touches. *)
Record ConfigMap := {
  APIVersion : string;
  Kind : string;
  cm_Name : string;
  cm_Namespace : string;
  Labels : gmap string string;
  Annotations : gmap string string;
  Data : gmap string string
}.

(** [client.ObjectKeyFromObject]. *)
Definition ObjectKeyFromObject (cm : ConfigMap) : ObjectKey :=
  {| key_Namespace := cm_Namespace cm; key_Name := cm_Name cm |}.

Definition set_Annotations (a : gmap string string) (cm : ConfigMap) : ConfigMap :=
  {| APIVersion := APIVersion cm; Kind := Kind cm;
     cm_Name := cm_Name cm; cm_Namespace := cm_Namespace cm;
     Labels := Labels cm; Annotations := a; Data := Data cm |}.

Definition set_Data (d : gmap string string) (cm : ConfigMap) : ConfigMap :=
  {| APIVersion := APIVersion cm; Kind := Kind cm;
     cm_Name := cm_Name cm; cm_Namespace := cm_Namespace cm;
     Labels := Labels cm; Annotations := Annotations cm; Data := d |}.

(** [client.Patch] and [client.PatchOption], as far as they are used. *)
Inductive PatchType := Apply | Merge.

Inductive PatchOption :=
| ForceOwnership
| FieldOwner (name : string).

(** [ssa.Owner]: the name of the field manager and the group of the
    annotation keys. *)
Record ssa_Owner := { Field : string; Group : string }.

(** [InventoryStorage]; its [Manager] is the way to the client, which the
    operations take from their context here. *)
Record InventoryStorage := { Owner : ssa_Owner }.

(** The client of the API server.  [St] is the state of the cluster as the
    client sees it; a read leaves it as it is, a patch and a delete return
    the next one. *)
Class Client (St : Type) := {
  client_Get : St → ObjectKey → ConfigMap → result client_error ConfigMap;
  client_Patch :
    St → ConfigMap → PatchType → list PatchOption → option client_error * St;
  client_Delete : St → ConfigMap → option client_error * St
}.

(** The error of a client call as a value of [error], next to the state
    the call leaves. *)
Definition of_client {St : Type} (r : option client_error * St)
  : option error * St :=
  (ClientErr <$> r.1, r.2).

(** ** The inventory *)

(** Modelled from the spec: the [Entry] type is declared outside
    [storage.go]; an entry has an [id] and a [version]. *)
Record Entry := { id : string; version : string }.

(** Modelled from the spec: the [Inventory] type is declared outside
    [storage.go]; its five fields are the ones [storage.go] reads and
    writes. *)
Record Inventory := {
  Name : string;
  Namespace : string;
  Source : string;
  Revision : string;
  Entries : list Entry
}.

Definition set_Entries (es : list Entry) (i : Inventory) : Inventory :=
  {| Name := Name i; Namespace := Namespace i; Source := Source i;
     Revision := Revision i; Entries := es |}.

Definition set_Source (s : string) (i : Inventory) : Inventory :=
  {| Name := Name i; Namespace := Namespace i; Source := s;
     Revision := Revision i; Entries := Entries i |}.

Definition set_Revision (r : string) (i : Inventory) : Inventory :=
  {| Name := Name i; Namespace := Namespace i; Source := Source i;
     Revision := r; Entries := Entries i |}.

(** The JSON codec for the entry list ([json.Marshal] of [[]Entry] and
    [json.Unmarshal] into it). *)
Class JSON := {
  json_Marshal : list Entry → result json_error string;
  json_Unmarshal : string → result json_error (list Entry)
}.

(** ** Time

    [time.Now().UTC()] is an input of the model: the civil date and time of
    day, in UTC, that the clock shows when the inventory is applied. *)
Record Time := {
  year : Z; month : Z; day : Z; hour : Z; minute : Z; second : Z
}.

Local Open Scope Z_scope.

Definition digit (d : Z) : ascii := ascii_of_nat (48 + Z.to_nat (d `mod` 10)).

Definition pad2 (n : Z) : string :=
  String (digit (n / 10)) (String (digit n) EmptyString).

Definition pad4 (n : Z) : string :=
  String (digit (n / 1000)) (String (digit (n / 100)) (pad2 n)).

(** [t.Format(time.RFC3339)] for a time in UTC, whose zone prints as [Z];
    the layout is [2006-01-02T15:04:05Z07:00].  The years are those of
    RFC 3339, 0 to 9999. *)
Definition Format_RFC3339 (t : Time) : string :=
  pad4 (year t) +:+ "-" +:+ pad2 (month t) +:+ "-" +:+ pad2 (day t) +:+ "T" +:+
  pad2 (hour t) +:+ ":" +:+ pad2 (minute t) +:+ ":" +:+ pad2 (second t) +:+ "Z".

Local Close Scope Z_scope.

(** The shape of an RFC 3339 timestamp in UTC, [dddd-dd-ddTdd:dd:ddZ]:
    [None] stands for a decimal digit, [Some c] for the character [c]. *)
Definition rfc3339_utc_layout : list (option ascii) :=
  [None; None; None; None; Some "-"%char; None; None; Some "-"%char;
   None; None; Some "T"%char; None; None; Some ":"%char; None; None;
   Some ":"%char; None; None; Some "Z"%char].

Definition is_digit (c : ascii) : bool :=
  (48 <=? nat_of_ascii c)%nat && (nat_of_ascii c <=? 57)%nat.

Fixpoint matches_layout (l : list (option ascii)) (s : string) : bool :=
  match l, s with
  | [], EmptyString => true
  | None :: l', String c s' => is_digit c && matches_layout l' s'
  | Some d :: l', String c s' => bool_decide (c = d) && matches_layout l' s'
  | _, _ => false
  end.

Definition is_RFC3339_UTC (s : string) : bool :=
  matches_layout rfc3339_utc_layout s.

(** The key of the record of an inventory: its namespace and its name. *)
Definition record_key (i : Inventory) : ObjectKey :=
  {| key_Namespace := Namespace i; key_Name := Name i |}.

(** ** The storage *)

Definition inventoryKindName : string := "inventory".

Section Storage.
Context {St : Type} {client : Client St} {codec : JSON}.

(** The receiver of the methods. *)
Variable m : InventoryStorage.

(** The inventory constructor and the diff are declared outside
    [storage.go]; here they have the types of their calls. *)
Variable Unstructured : Type.
Variable NewInventory : string → string → Inventory.
Variable Diff : Inventory → Inventory → result error (list Unstructured).

Definition newConfigMap (name namespace : string) : ConfigMap :=
  {| APIVersion := "v1";
     Kind := "ConfigMap";
     cm_Name := name;
     cm_Namespace := namespace;
     Labels :=
       <["app.kubernetes.io/created-by" := Field (Owner m)]>
       (<["app.kubernetes.io/component" := inventoryKindName]>
        (<["app.kubernetes.io/name" := name]> ∅));
     Annotations := ∅;
     Data := ∅ |}.

(** [ApplyInventory]: [now] is what [time.Now().UTC()] returns. *)
Definition ApplyInventory (st : St) (now : Time) (i : Inventory)
  : option error * St :=
  match json_Marshal (Entries i) with
  | Err err => (Some (JsonErr err), st)
  | Ok data =>
    let cm := newConfigMap (Name i) (Namespace i) in
    let cm :=
      set_Annotations
        {[ Group (Owner m) +:+ "/last-applied-time" := Format_RFC3339 now ]} cm in
    let cm :=
      if bool_decide (Source i ≠ "")
      then set_Annotations
             (<[Group (Owner m) +:+ "/source" := Source i]> (Annotations cm)) cm
      else cm in
    let cm :=
      if bool_decide (Revision i ≠ "")
      then set_Annotations
             (<[Group (Owner m) +:+ "/revision" := Revision i]> (Annotations cm)) cm
      else cm in
    let cm := set_Data {[ inventoryKindName := data ]} cm in
    let opts := [ForceOwnership; FieldOwner (Field (Owner m))] in
    of_client (client_Patch st cm Apply opts)
  end.

(** The body of the loop over the annotations in [GetInventory]. *)
Definition scan_annotation (k v : string) (i : Inventory) : Inventory :=
  if bool_decide (k = Group (Owner m) +:+ "/source") then set_Source v i
  else if bool_decide (k = Group (Owner m) +:+ "/revision") then set_Revision v i
  else i.

(** [GetInventory] fills the inventory behind the pointer [i]: the
    inventory after the call is the second component. *)
Definition GetInventory (st : St) (i : Inventory) : option error * Inventory :=
  let cm := newConfigMap (Name i) (Namespace i) in
  let cmKey := ObjectKeyFromObject cm in
  match client_Get st cmKey cm with
  | Err err => (Some (ClientErr err), i)
  | Ok cm =>
    match Data cm !! inventoryKindName with
    | None =>
      (Some (Errorf ("inventory data not found in ConfigMap/" +:+
                     ObjectKey_String cmKey)), i)
    | Some blob =>
      match json_Unmarshal blob with
      | Err err => (Some (JsonErr err), i)
      | Ok entries =>
        let i := set_Entries entries i in
        let i := map_fold scan_annotation i (Annotations cm) in
        (None, i)
      end
    end
  end.

Definition DeleteInventory (st : St) (i : Inventory) : option error * St :=
  let cm := newConfigMap (Name i) (Namespace i) in
  let cmKey := ObjectKeyFromObject cm in
  match of_client (client_Delete st cm) with
  | (Some err, st') =>
    if negb (IsNotFound err)
    then (Some (ErrorfW ("failed to delete ConfigMap/" +:+
                         ObjectKey_String cmKey +:+ ", error: ") err), st')
    else (None, st')
  | (None, st') => (None, st')
  end.

Definition GetInventoryStaleObjects (st : St) (i : Inventory)
  : result error (list Unstructured) :=
  let objects := [] in
  let existingInventory := NewInventory (Name i) (Namespace i) in
  match GetInventory st existingInventory with
  | (Some err, _) =>
    if IsNotFound err then Ok objects else Err err
  | (None, existingInventory) =>
    match Diff existingInventory i with
    | Err err => Err err
    | Ok objects => Ok objects
    end
  end.

End Storage.

Arguments GetInventoryStaleObjects {St _ _} m {Unstructured} NewInventory Diff st i.

(** ** What the round trip asks of the client and of the codec *)

(** The record read under the key of [cm] in the state [st] has the data
    and the annotations of [cm]. *)
Definition reads_back {St : Type} {client : Client St}
  (st : St) (cm : ConfigMap) : Prop :=
  ∀ obj, ∃ cm', client_Get st (ObjectKeyFromObject cm) obj = Ok cm' ∧
                Data cm' = Data cm ∧ Annotations cm' = Annotations cm.

(** The state [st'] a successful apply patch leaves after [st] holds what was
    written. *)
Definition PatchThenGet {St : Type} {client : Client St} (st st' : St) : Prop :=
  ∀ cm opts, client_Patch st cm Apply opts = (None, st') → reads_back st' cm.

(** The codec decodes what it encodes of the entries [es]. *)
Definition decodes {codec : JSON} (es : list Entry) : Prop :=
  ∀ data, json_Marshal es = Ok data → json_Unmarshal data = Ok es.

(** The client answers a delete of [cm] in [st] with no error or with
    NotFound. *)
Definition absent_or_deleted {St : Type} {client : Client St}
  (st : St) (cm : ConfigMap) : Prop :=
  ∀ ce, (client_Delete st cm).1 = Some ce → IsNotFound (ClientErr ce) = true.

(** ** The loop over the annotations, in any order

    Go walks a map in an order of its own choosing; [visit_annotations] walks
    the annotations in the order of the list [l], the first pair first. *)
Definition visit_annotations (m : InventoryStorage)
  (l : list (string * string)) (i : Inventory) : Inventory :=
  foldl (λ i kv, scan_annotation m kv.1 kv.2 i) i l.

(** The inventory with the source and the revision looked up under their
    two keys, and left as they are where the key is missing. *)
Definition read_annotations (m : InventoryStorage)
  (anns : gmap string string) (i : Inventory) : Inventory :=
  {| Name := Name i; Namespace := Namespace i;
     Source := default (Source i) (anns !! (Group (Owner m) +:+ "/source"));
     Revision := default (Revision i) (anns !! (Group (Owner m) +:+ "/revision"));
     Entries := Entries i |}.

(** ** What the compositions ask of the client and of the constructor *)

(** A patch in [st] leaves the answers to the reads under every other key
    as they are. *)
Definition PatchFrame {St : Type} {client : Client St} (st : St) : Prop :=
  ∀ cm p opts k obj, k ≠ ObjectKeyFromObject cm →
    client_Get (client_Patch st cm p opts).2 k obj = client_Get st k obj.

(** A delete in [st] leaves the answers to the reads under every other key
    as they are. *)
Definition DeleteFrame {St : Type} {client : Client St} (st : St) : Prop :=
  ∀ cm k obj, k ≠ ObjectKeyFromObject cm →
    client_Get (client_Delete st cm).2 k obj = client_Get st k obj.

(** After a delete in [st] that the client answers with no error or with
    NotFound, a read under the key of the object is answered with NotFound. *)
Definition DeleteThenGet {St : Type} {client : Client St} (st : St) : Prop :=
  ∀ cm obj, absent_or_deleted st cm →
    ∃ msg, client_Get (client_Delete st cm).2 (ObjectKeyFromObject cm) obj =
             Err (StatusError StatusReasonNotFound msg).

(** The constructor returns an inventory with the name and the namespace it
    is given and without source and revision. *)
Definition fresh_constructor (new : string → string → Inventory) : Prop :=
  ∀ name namespace,
    Name (new name namespace) = name ∧
    Namespace (new name namespace) = namespace ∧
    Source (new name namespace) = "" ∧
    Revision (new name namespace) = "".

(** The annotations of a record, for the example of the loop. *)
Definition ex_anns : gmap string string :=
  <["inventory.kustomizer.dev/source" := "oci://registry/app"]>
  (<["inventory.kustomizer.dev/last-applied-time" := "2021-10-31T09:05:00Z"]>
   (<["inventory.kustomizer.dev/revision" := "6.0.1"]>
    (<["app.kubernetes.io/managed-by" := "kustomizer"]> ∅))).

(** ** The inventory's constructor and diff *)

(** The inventory that has an identity and nothing else. *)
Definition emptyInventory (name namespace : string) : Inventory :=
  {| Name := name; Namespace := namespace; Source := ""; Revision := "";
     Entries := [] |}.

(** Modelled from the spec: [NewInventory] is defined outside [storage.go].
    It constructs an empty inventory with the given identity.  Its call in
    [GetInventoryStaleObjects] takes its one result as the inventory, so it
    has no error to return. *)
Definition NewInventory (name namespace : string) : Inventory :=
  emptyInventory name namespace.

(** The entries of [old] whose [id] is not an [id] of [new], in the order
    they have in [old]. *)
Definition stale (old new : list Entry) : list Entry :=
  filter (λ e, id e ∉ id <$> new) old.

(** The order the entries come in, the one the diff may take. *)
Definition insertion_order (l : list Entry) : list Entry := l.

Section DiffModel.

(** The order in which the diff returns the stale entries; the spec asks
    for a fixed one and leaves open which. *)
Variable order : list Entry → list Entry.

(** Modelled from the spec: [Diff] is defined outside [storage.go].  It
    returns every entry of the receiver whose [id] does not appear in the
    other inventory and looks at no other field; it has the error result of
    its call in [GetInventoryStaleObjects]. *)
Definition Diff (inv other : Inventory) : result error (list Entry) :=
  Ok (order (stale (Entries inv) (Entries other))).

End DiffModel.

(** ** An API server in memory

    The records by namespace and name, and a switch for an outage: while it
    is set every request is answered with its error. *)
Record Cluster := {
  objects : gmap (string * string) ConfigMap;
  outage : option client_error
}.

Definition key_pair (k : ObjectKey) : string * string :=
  (key_Namespace k, key_Name k).

Definition not_found (k : ObjectKey) : client_error :=
  StatusError StatusReasonNotFound
    ("configmaps " +:+ key_Name k +:+ " not found").

Definition mem_Get (c : Cluster) (k : ObjectKey) (obj : ConfigMap)
  : result client_error ConfigMap :=
  match outage c with
  | Some e => Err e
  | None =>
    match objects c !! key_pair k with
    | Some cm => Ok cm
    | None => Err (not_found k)
    end
  end.

Definition mem_Patch (c : Cluster) (cm : ConfigMap) (p : PatchType)
  (opts : list PatchOption) : option client_error * Cluster :=
  match outage c with
  | Some e => (Some e, c)
  | None =>
    (None, {| objects := <[key_pair (ObjectKeyFromObject cm) := cm]> (objects c);
              outage := None |})
  end.

Definition mem_Delete (c : Cluster) (cm : ConfigMap)
  : option client_error * Cluster :=
  match outage c with
  | Some e => (Some e, c)
  | None =>
    let k := ObjectKeyFromObject cm in
    match objects c !! key_pair k with
    | Some _ => (None, {| objects := delete (key_pair k) (objects c);
                          outage := None |})
    | None => (Some (not_found k), c)
    end
  end.

#[export] Instance mem_Client : Client Cluster :=
  {| client_Get := mem_Get; client_Patch := mem_Patch;
     client_Delete := mem_Delete |}.

(** ** A codec for the entry list

    The JSON the entries need: an array of objects with the two string
    fields, no white space, and in the strings the escapes of the double
    quote and the backslash.  The encoder carries the text that follows. *)
Definition dquote : ascii := ascii_of_nat 34.
Definition backslash : ascii := ascii_of_nat 92.

Fixpoint escape (s : string) : string :=
  match s with
  | EmptyString => EmptyString
  | String c s' =>
    if bool_decide (c = dquote) || bool_decide (c = backslash)
    then String backslash (String c (escape s'))
    else String c (escape s')
  end.

(** The characters before the [id] of an entry and between it and the
    version: an opening brace, the field name in quotes, a colon and the
    opening quote of the value. *)
Definition id_prefix : string :=
  "{" +:+ String dquote ("id" +:+ String dquote (":" +:+ String dquote "")).

Definition version_prefix : string :=
  "," +:+ String dquote ("version" +:+ String dquote (":" +:+ String dquote "")).

(** An entry, followed by [rest]. *)
Definition encode_entry (e : Entry) (rest : string) : string :=
  id_prefix +:+ escape (id e) +:+
  String dquote (version_prefix +:+ escape (version e) +:+
                 String dquote (String "}" rest)).

(** The entries between commas, and the closing bracket. *)
Fixpoint encode_entries (es : list Entry) : string :=
  match es with
  | [] => "]"
  | [e] => encode_entry e "]"
  | e :: es' => encode_entry e (String "," (encode_entries es'))
  end.

Definition mini_Marshal (es : list Entry) : result json_error string :=
  Ok (String "[" (encode_entries es)).

(** The rest of [s] after the prefix [p]. *)
Fixpoint strip (p s : string) : option string :=
  match p, s with
  | EmptyString, _ => Some s
  | String a p', String b s' => if bool_decide (a = b) then strip p' s' else None
  | _, _ => None
  end.

(** A string's characters up to its closing quote, and what follows it. *)
Fixpoint unquote (s : string) : option (string * string) :=
  match s with
  | EmptyString => None
  | String c s' =>
    if bool_decide (c = dquote) then Some (EmptyString, s')
    else if bool_decide (c = backslash) then
      match s' with
      | String c' s'' =>
        if bool_decide (c' = dquote) || bool_decide (c' = backslash)
        then '(r, rest) ← unquote s''; Some (String c' r, rest)
        else None
      | EmptyString => None
      end
    else '(r, rest) ← unquote s'; Some (String c r, rest)
  end.

Definition decode_entry (s : string) : option (Entry * string) :=
  s ← strip id_prefix s;
  '(i, s) ← unquote s;
  s ← strip version_prefix s;
  '(v, s) ← unquote s;
  s ← strip "}" s;
  Some ({| id := i; version := v |}, s).

(** The entries up to the closing bracket; every entry takes at least one
    character, so the length of the input is fuel enough. *)
Fixpoint decode_entries (fuel : nat) (s : string) : option (list Entry) :=
  match fuel with
  | O => None
  | S fuel' =>
    '(e, s) ← decode_entry s;
    match s with
    | String "]" EmptyString => Some [e]
    | String "," s' => es ← decode_entries fuel' s'; Some (e :: es)
    | _ => None
    end
  end.

Definition mini_Unmarshal (s : string) : result json_error (list Entry) :=
  if bool_decide (s = "null") || bool_decide (s = "[]") then Ok []
  else
    match s with
    | String "[" s' =>
      match decode_entries (String.length s') s' with
      | Some es => Ok es
      | None => Err (SyntaxError "invalid character in inventory data")
      end
    | _ => Err (SyntaxError "invalid character in inventory data")
    end.

#[export] Instance mini_JSON : JSON :=
  {| json_Marshal := mini_Marshal; json_Unmarshal := mini_Unmarshal |}.

(** ** The small codec with the replacement character

    One more rule of [encoding/json]: [json.Marshal] writes a byte that is
    not part of valid UTF-8 as the escape of the replacement character
    U+FFFD, and [json.Unmarshal] reads that escape as the three bytes of
    U+FFFD in UTF-8.  The bytes taken here are those no UTF-8 text contains
    at any place: C0, C1 and F5 to FF. *)
Definition never_utf8 (c : ascii) : bool :=
  (nat_of_ascii c =? 192)%nat || (nat_of_ascii c =? 193)%nat ||
  (245 <=? nat_of_ascii c)%nat.

(** The escape, a backslash and [ufffd]. *)
Definition replacement_escape : string := String backslash "ufffd".

(** U+FFFD in UTF-8: EF BF BD. *)
Definition replacement_bytes : string :=
  String (ascii_of_nat 239) (String (ascii_of_nat 191)
    (String (ascii_of_nat 189) EmptyString)).

Fixpoint replacing_escape (s : string) : string :=
  match s with
  | EmptyString => EmptyString
  | String c s' =>
    if never_utf8 c then replacement_escape +:+ replacing_escape s'
    else if bool_decide (c = dquote) || bool_decide (c = backslash)
    then String backslash (String c (replacing_escape s'))
    else String c (replacing_escape s')
  end.

Fixpoint replacing_unquote (s : string) : option (string * string) :=
  match s with
  | EmptyString => None
  | String c s' =>
    if bool_decide (c = dquote) then Some (EmptyString, s')
    else if bool_decide (c = backslash) then
      match s' with
      | String "u" (String "f" (String "f" (String "f" (String "d" s'')))) =>
        '(r, rest) ← replacing_unquote s''; Some (replacement_bytes +:+ r, rest)
      | String c' s'' =>
        if bool_decide (c' = dquote) || bool_decide (c' = backslash)
        then '(r, rest) ← replacing_unquote s''; Some (String c' r, rest)
        else None
      | EmptyString => None
      end
    else '(r, rest) ← replacing_unquote s'; Some (String c r, rest)
  end.

Definition replacing_encode_entry (e : Entry) (rest : string) : string :=
  id_prefix +:+ replacing_escape (id e) +:+
  String dquote (version_prefix +:+ replacing_escape (version e) +:+
                 String dquote (String "}" rest)).

Fixpoint replacing_encode_entries (es : list Entry) : string :=
  match es with
  | [] => "]"
  | [e] => replacing_encode_entry e "]"
  | e :: es' => replacing_encode_entry e (String "," (replacing_encode_entries es'))
  end.

Definition replacing_Marshal (es : list Entry) : result json_error string :=
  Ok (String "[" (replacing_encode_entries es)).

Definition replacing_decode_entry (s : string) : option (Entry * string) :=
  s ← strip id_prefix s;
  '(i, s) ← replacing_unquote s;
  s ← strip version_prefix s;
  '(v, s) ← replacing_unquote s;
  s ← strip "}" s;
  Some ({| id := i; version := v |}, s).

Fixpoint replacing_decode_entries (fuel : nat) (s : string)
  : option (list Entry) :=
  match fuel with
  | O => None
  | S fuel' =>
    '(e, s) ← replacing_decode_entry s;
    match s with
    | String "]" EmptyString => Some [e]
    | String "," s' => es ← replacing_decode_entries fuel' s'; Some (e :: es)
    | _ => None
    end
  end.

Definition replacing_Unmarshal (s : string) : result json_error (list Entry) :=
  if bool_decide (s = "null") || bool_decide (s = "[]") then Ok []
  else
    match s with
    | String "[" s' =>
      match replacing_decode_entries (String.length s') s' with
      | Some es => Ok es
      | None => Err (SyntaxError "invalid character in inventory data")
      end
    | _ => Err (SyntaxError "invalid character in inventory data")
    end.

Definition replacing_JSON : JSON :=
  {| json_Marshal := replacing_Marshal; json_Unmarshal := replacing_Unmarshal |}.

(** ** An API server with a second field manager

    Of every record the server keeps the object this field manager applied
    and the annotations another manager owns.  An apply patch replaces the
    object and leaves the other manager's annotations; a read returns the
    object with the annotations of both, this manager's first. *)
Record Owned := {
  applied : ConfigMap;
  foreign : gmap string string
}.

Definition ssa_Get (c : gmap (string * string) Owned) (k : ObjectKey)
  (obj : ConfigMap) : result client_error ConfigMap :=
  match c !! key_pair k with
  | Some r => Ok (set_Annotations (Annotations (applied r) ∪ foreign r) (applied r))
  | None => Err (not_found k)
  end.

Definition ssa_Patch (c : gmap (string * string) Owned) (cm : ConfigMap)
  (p : PatchType) (opts : list PatchOption)
  : option client_error * gmap (string * string) Owned :=
  let k := key_pair (ObjectKeyFromObject cm) in
  (None, <[k := {| applied := cm;
                   foreign := default ∅ (foreign <$> c !! k) |}]> c).

Definition ssa_Delete (c : gmap (string * string) Owned) (cm : ConfigMap)
  : option client_error * gmap (string * string) Owned :=
  let k := ObjectKeyFromObject cm in
  match c !! key_pair k with
  | Some _ => (None, delete (key_pair k) c)
  | None => (Some (not_found k), c)
  end.

Definition ssa_Client : Client (gmap (string * string) Owned) :=
  {| client_Get := ssa_Get; client_Patch := ssa_Patch;
     client_Delete := ssa_Delete |}.

(** ** A worked example: the inventory of [app] in [ns] *)

Definition ex_owner : ssa_Owner :=
  {| Field := "kustomizer"; Group := "inventory.kustomizer.dev" |}.

Definition ex_storage : InventoryStorage := {| Owner := ex_owner |}.

Definition ex_now : Time :=
  {| year := 2021; month := 10; day := 31; hour := 9; minute := 5; second := 0 |}.

Definition ex_a : Entry := {| id := "ns_a_apps_Deployment"; version := "v1" |}.
Definition ex_b : Entry := {| id := "ns_b__Service"; version := "v1" |}.
Definition ex_c : Entry := {| id := "ns_c__ConfigMap"; version := "v1" |}.
Definition ex_d : Entry := {| id := "ns_d__Secret"; version := "v1" |}.

Definition ex_I1 : Inventory :=
  {| Name := "app"; Namespace := "ns"; Source := "oci://registry/app";
     Revision := "6.0.1"; Entries := [ex_a; ex_b; ex_c] |}.

Definition ex_I2 : Inventory :=
  {| Name := "app"; Namespace := "ns"; Source := ""; Revision := "";
     Entries := [ex_b; ex_c; ex_d] |}.

Definition ex_cluster : Cluster := {| objects := ∅; outage := None |}.

Definition ex_down : Cluster :=
  {| objects := ∅;
     outage := Some (StatusError StatusReasonForbidden "configmaps is forbidden") |}.

(** The options of the apply patch for the owner of the example. *)
Definition ex_opts : list PatchOption := [ForceOwnership; FieldOwner "kustomizer"].

(** The cluster after the first inventory is applied to the empty one, and
    after the second is. *)
Definition ex_applied : Cluster :=
  (ApplyInventory ex_storage ex_cluster ex_now ex_I1).2.

Definition ex_applied2 : Cluster :=
  (ApplyInventory ex_storage ex_cluster ex_now ex_I2).2.

(** Another inventory in the same namespace, and the cluster that holds the
    records of both. *)
Definition ex_I3 : Inventory :=
  {| Name := "web"; Namespace := "ns"; Source := ""; Revision := "";
     Entries := [ex_d] |}.

Definition ex_both : Cluster :=
  (ApplyInventory ex_storage ex_applied ex_now ex_I3).2.

(** An inventory with an entry whose [id] is the one byte FF. *)
Definition ex_ff : Inventory :=
  {| Name := "app"; Namespace := "ns"; Source := ""; Revision := "";
     Entries := [{| id := String (ascii_of_nat 255) EmptyString;
                    version := "v1" |}] |}.

(** A cluster where another field manager owns a [source] annotation of the
    record of [app]. *)
Definition ex_shared : gmap (string * string) Owned :=
  {[ ("ns", "app") :=
       {| applied := newConfigMap ex_storage "app" "ns";
          foreign := {[ "inventory.kustomizer.dev/source" := "git://elsewhere" ]} |} ]}.

(** A cluster whose record of [app] has no data. *)
Definition ex_corrupt : Cluster :=
  {| objects := {[ ("ns", "app") := newConfigMap ex_storage "app" "ns" ]};
     outage := None |}.

(** ** Facts about strings and the annotation keys *)

Lemma append_inj_r (p a b : string) : p +:+ a = p +:+ b → a = b.
Proof.
  induction p as [|c p IH]; simpl; [done|].
  intros [= H]. by apply IH.
Qed.

Lemma source_ne_revision (g : string) : g +:+ "/source" ≠ g +:+ "/revision".
Proof. intros H. by apply append_inj_r in H. Qed.

Lemma source_ne_time (g : string) : g +:+ "/source" ≠ g +:+ "/last-applied-time".
Proof. intros H. by apply append_inj_r in H. Qed.

Lemma revision_ne_time (g : string) :
  g +:+ "/revision" ≠ g +:+ "/last-applied-time".
Proof. intros H. by apply append_inj_r in H. Qed.

(** ** Facts about the time stamp *)

Lemma is_digit_digit (d : Z) : is_digit (digit d) = true.
Proof.
  unfold is_digit, digit.
  assert (0 ≤ d `mod` 10 < 10)%Z as Hd by (apply Z.mod_pos_bound; lia).
  rewrite nat_ascii_embedding by lia.
  apply andb_true_iff; split; apply Nat.leb_le; lia.
Qed.

Lemma Format_RFC3339_layout (t : Time) : is_RFC3339_UTC (Format_RFC3339 t) = true.
Proof.
  unfold is_RFC3339_UTC, Format_RFC3339, pad4, pad2, rfc3339_utc_layout.
  cbv [String.append matches_layout].
  rewrite !is_digit_digit. reflexivity.
Qed.

Example Format_RFC3339_ex : Format_RFC3339 ex_now = "2021-10-31T09:05:00Z".
Proof. reflexivity. Qed.

(** ** Facts about the storage, for every client and every codec *)

Section StorageFacts.
Context {St : Type} {client : Client St} {codec : JSON}.
Variable m : InventoryStorage.

Variable Unstructured : Type.
Variable NewInventory : string → string → Inventory.
Variable Diff : Inventory → Inventory → result error (list Unstructured).

Abbreviation source_key := (Group (Owner m) +:+ "/source").
Abbreviation revision_key := (Group (Owner m) +:+ "/revision").
Abbreviation time_key := (Group (Owner m) +:+ "/last-applied-time").

Lemma scan_annotation_fields (k v : string) (i : Inventory) :
  Name (scan_annotation m k v i) = Name i ∧
  Namespace (scan_annotation m k v i) = Namespace i ∧
  Entries (scan_annotation m k v i) = Entries i ∧
  Source (scan_annotation m k v i) =
    (if bool_decide (k = source_key) then v else Source i) ∧
  Revision (scan_annotation m k v i) =
    (if bool_decide (k = revision_key) then v else Revision i).
Proof.
  unfold scan_annotation.
  destruct (bool_decide_reflect (k = source_key)) as [->|Hs].
  - rewrite bool_decide_eq_false_2 by apply source_ne_revision. done.
  - destruct (bool_decide_reflect (k = revision_key)); done.
Qed.

(** The loop over the annotations is two lookups: the order in which the
    map is walked does not show. *)
Lemma scan_annotations (anns : gmap string string) (i : Inventory) :
  let i' := map_fold (scan_annotation m) i anns in
  Name i' = Name i ∧ Namespace i' = Namespace i ∧ Entries i' = Entries i ∧
  Source i' = default (Source i) (anns !! source_key) ∧
  Revision i' = default (Revision i) (anns !! revision_key).
Proof.
  simpl.
  apply (map_fold_weak_ind (λ r a,
    Name r = Name i ∧ Namespace r = Namespace i ∧ Entries r = Entries i ∧
    Source r = default (Source i) (a !! source_key) ∧
    Revision r = default (Revision i) (a !! revision_key))).
  - by rewrite !lookup_empty.
  - intros k v a r Hk (Hn & Hns & He & Hsrc & Hrev).
    destruct (scan_annotation_fields k v r) as (-> & -> & -> & -> & ->).
    repeat split; try done.
    + destruct (bool_decide_reflect (k = source_key)) as [->|Hne].
      * by rewrite lookup_insert_eq.
      * by rewrite lookup_insert_ne.
    + destruct (bool_decide_reflect (k = revision_key)) as [->|Hne].
      * by rewrite lookup_insert_eq.
      * by rewrite lookup_insert_ne.
Qed.

(** The ways [GetInventory] can end, read off the client's answer. *)
Lemma GetInventory_cases (st : St) (i : Inventory) :
  let key := record_key i in
  let obj := newConfigMap m (Name i) (Namespace i) in
  match client_Get st key obj with
  | Err ce => GetInventory m st i = (Some (ClientErr ce), i)
  | Ok cm =>
    match Data cm !! inventoryKindName with
    | None =>
      GetInventory m st i =
        (Some (Errorf ("inventory data not found in ConfigMap/" +:+
                       ObjectKey_String key)), i)
    | Some blob =>
      match json_Unmarshal blob with
      | Err je => GetInventory m st i = (Some (JsonErr je), i)
      | Ok entries =>
        GetInventory m st i =
          (None, map_fold (scan_annotation m) (set_Entries entries i)
                   (Annotations cm))
      end
    end
  end.
Proof.
  unfold GetInventory, record_key. cbn [ObjectKeyFromObject newConfigMap cm_Name cm_Namespace].
  destruct (client_Get _ _ _) as [cm|ce]; [|done].
  destruct (Data cm !! inventoryKindName) as [blob|]; [|done].
  by destruct (json_Unmarshal blob).
Qed.

(** C1: [GetInventoryStaleObjects] reads the record into the inventory that
    the constructor builds from the name and the namespace of [i]; when the
    read fails with NotFound the result is the empty list and no error, when
    it fails with another error the result is that error, and otherwise the
    result is the result of the diff of the inventory read against [i].  In
    particular the client's NotFound gives the empty list and every other
    error of the client comes back as it is. *)
Theorem GetInventoryStaleObjects_spec (st : St) (i : Inventory) :
  let fresh := NewInventory (Name i) (Namespace i) in
  let obj := newConfigMap m (Name fresh) (Namespace fresh) in
  GetInventoryStaleObjects m NewInventory Diff st i =
    match GetInventory m st fresh with
    | (Some err, _) => if IsNotFound err then Ok [] else Err err
    | (None, existing) => Diff existing i
    end ∧
  (∀ msg,
     client_Get st (record_key fresh) obj =
       Err (StatusError StatusReasonNotFound msg) →
     GetInventoryStaleObjects m NewInventory Diff st i = Ok []) ∧
  (∀ ce,
     client_Get st (record_key fresh) obj = Err ce →
     IsNotFound (ClientErr ce) = false →
     GetInventoryStaleObjects m NewInventory Diff st i = Err (ClientErr ce)).
Proof.
  intros fresh obj.
  assert (GetInventoryStaleObjects m NewInventory Diff st i =
          match GetInventory m st fresh with
          | (Some err, _) => if IsNotFound err then Ok [] else Err err
          | (None, existing) => Diff existing i
          end) as Heq.
  { unfold GetInventoryStaleObjects. fold fresh.
    destruct (GetInventory m st fresh) as [[err|] existing]; [done|].
    by destruct (Diff existing i). }
  pose proof (GetInventory_cases st fresh) as Hc. cbv zeta in Hc. fold obj in Hc.
  split_and!; [done| |].
  - intros msg Hget. rewrite Hget in Hc. by rewrite Heq, Hc.
  - intros ce Hget Hnf. rewrite Hget in Hc. rewrite Heq, Hc. by rewrite Hnf.
Qed.

(** C4: [GetInventory] fails with NotFound exactly when the client answers
    that there is no record under the inventory's key, with the error for
    missing data exactly when the record is there and has no [inventory]
    key, and with the codec's error exactly when the blob is there and does
    not decode; whenever it fails, the inventory is as it was. *)
Theorem GetInventory_errors (st : St) (i : Inventory) :
  let key := record_key i in
  let obj := newConfigMap m (Name i) (Namespace i) in
  ((∃ e, (GetInventory m st i).1 = Some e ∧ IsNotFound e = true) ↔
   (∃ msg, client_Get st key obj = Err (StatusError StatusReasonNotFound msg)))
  ∧
  ((GetInventory m st i).1 =
     Some (Errorf ("inventory data not found in ConfigMap/" +:+
                   Namespace i +:+ "/" +:+ Name i)) ↔
   (∃ cm, client_Get st key obj = Ok cm ∧ Data cm !! "inventory" = None))
  ∧
  ((∃ je, (GetInventory m st i).1 = Some (JsonErr je)) ↔
   (∃ cm blob je, client_Get st key obj = Ok cm ∧
                  Data cm !! "inventory" = Some blob ∧
                  json_Unmarshal blob = Err je))
  ∧
  (∀ e i', GetInventory m st i = (Some e, i') →
           i' = i ∧ Entries i' = Entries i).
Proof.
  intros key obj. pose proof (GetInventory_cases st i) as Hc.
  cbv zeta in Hc. fold key obj in Hc.
  change (ObjectKey_String key) with (Namespace i +:+ "/" +:+ Name i) in Hc.
  change inventoryKindName with "inventory" in Hc.
  destruct (client_Get st key obj) as [cm|ce].
  - destruct (Data cm !! "inventory") as [blob|] eqn:Hd.
    + destruct (json_Unmarshal blob) as [es|je] eqn:Hj; rewrite Hc; simpl.
      * split_and!.
        -- split; [intros (e & [=] & _) | intros (msg & [=])].
        -- split; [intros [=] | intros (cm' & [= <-] & Hd'); congruence].
        -- split; [intros (je & [=]) |].
           intros (cm' & blob' & je & [= <-] & Hd' & Hj'). congruence.
        -- intros e i' [=].
      * split_and!.
        -- split; [intros (e & [= <-] & [=]) | intros (msg & [=])].
        -- split; [intros [=] | intros (cm' & [= <-] & Hd'); congruence].
        -- split; [intros _; by exists cm, blob, je | intros _; by exists je].
        -- by intros e i' [= <- <-].
    + rewrite Hc; simpl. split_and!.
      * split; [intros (e & [= <-] & [=]) | intros (msg & [=])].
      * split; [intros _; by exists cm | done].
      * split; [intros (je & [=]) |].
        intros (cm' & blob' & je & [= <-] & Hd' & Hj'). congruence.
      * by intros e i' [= <- <-].
  - rewrite Hc; simpl. split_and!.
    + split.
      * intros (e & [= <-] & Hnf). destruct ce as [[] msg|msg]; try done.
        by exists msg.
      * intros (msg & [= ->]). eexists. done.
    + split; [intros [=] | intros (cm & [=] & _)].
    + split; [intros (je & [=]) | intros (cm & blob & je & [=] & _)].
    + by intros e i' [= <- <-].
Qed.

(** C8: after a successful [GetInventory] the source of the inventory is the
    stored [source] annotation when there is one and is otherwise what it
    was before the call, and the same holds of the revision; the name and the
    namespace are the same after every call. *)
Theorem GetInventory_frame (st : St) (i i' : Inventory) (r : option error) :
  GetInventory m st i = (r, i') →
  Name i' = Name i ∧ Namespace i' = Namespace i ∧
  (r = None →
   ∃ cm, client_Get st (record_key i) (newConfigMap m (Name i) (Namespace i)) = Ok cm ∧
     (∀ v, Annotations cm !! source_key = Some v → Source i' = v) ∧
     (Annotations cm !! source_key = None → Source i' = Source i) ∧
     (∀ v, Annotations cm !! revision_key = Some v → Revision i' = v) ∧
     (Annotations cm !! revision_key = None → Revision i' = Revision i)).
Proof.
  intros Hget. pose proof (GetInventory_cases st i) as H. cbv zeta in H.
  destruct (client_Get st _ _) as [cm|ce].
  - destruct (Data cm !! inventoryKindName) as [blob|].
    + destruct (json_Unmarshal blob) as [es|je].
      * rewrite H in Hget. injection Hget as <- <-.
        destruct (scan_annotations (Annotations cm) (set_Entries es i))
          as (Hn & Hns & _ & Hsrc & Hrev).
        cbv zeta in *. simpl in *.
        repeat split; try done.
        intros _. exists cm. rewrite Hsrc, Hrev.
        repeat split; try done; by intros; simplify_option_eq.
      * rewrite H in Hget. by injection Hget as <- <-.
    + rewrite H in Hget. by injection Hget as <- <-.
  - rewrite H in Hget. by injection Hget as <- <-.
Qed.

Lemma of_client_None (r : option client_error * St) (st' : St) :
  of_client r = (None, st') ↔ r = (None, st').
Proof.
  destruct r as [[ce|] s]; unfold of_client; simpl; split; intros [=]; by subst.
Qed.

(** The object [ApplyInventory] hands to the client. *)
Lemma ApplyInventory_object (st : St) (now : Time) (i : Inventory) (data : string) :
  json_Marshal (Entries i) = Ok data →
  ∃ cm,
    ApplyInventory m st now i =
      of_client (client_Patch st cm Apply [ForceOwnership; FieldOwner (Field (Owner m))]) ∧
    ObjectKeyFromObject cm = record_key i ∧
    Labels cm = Labels (newConfigMap m (Name i) (Namespace i)) ∧
    Data cm = {[ "inventory" := data ]} ∧
    Annotations cm !! time_key = Some (Format_RFC3339 now) ∧
    Annotations cm !! source_key =
      (if bool_decide (Source i ≠ "") then Some (Source i) else None) ∧
    Annotations cm !! revision_key =
      (if bool_decide (Revision i ≠ "") then Some (Revision i) else None).
Proof.
  intros Hm. unfold ApplyInventory. rewrite Hm. cbv zeta.
  eexists. split; [reflexivity|].
  pose proof (source_ne_revision (Group (Owner m))) as Hsr.
  pose proof (source_ne_time (Group (Owner m))) as Hst.
  pose proof (revision_ne_time (Group (Owner m))) as Hrt.
  destruct (bool_decide (Source i ≠ "")), (bool_decide (Revision i ≠ ""));
    cbn [set_Data set_Annotations Annotations Data Labels newConfigMap
         ObjectKeyFromObject cm_Name cm_Namespace];
    (split_and!; [done..| | |]);
    by simplify_map_eq.
Qed.

(** C5: [DeleteInventory] deletes the record under the inventory's key; when
    the client answers NotFound it returns no error, so that two deletes in a
    row both succeed when the client has nothing else to report, and every
    other error of the client comes back wrapped in a message that names the
    key. *)
Theorem DeleteInventory_errors (st : St) (i : Inventory) :
  let cm := newConfigMap m (Name i) (Namespace i) in
  ObjectKeyFromObject cm = record_key i ∧
  (∀ st', client_Delete st cm = (None, st') →
          DeleteInventory m st i = (None, st')) ∧
  (∀ ce st', client_Delete st cm = (Some ce, st') →
             IsNotFound (ClientErr ce) = true →
             DeleteInventory m st i = (None, st')) ∧
  (∀ ce st', client_Delete st cm = (Some ce, st') →
             IsNotFound (ClientErr ce) = false →
             DeleteInventory m st i =
               (Some (ErrorfW ("failed to delete ConfigMap/" +:+
                               (Namespace i +:+ "/" +:+ Name i) +:+ ", error: ")
                              (ClientErr ce)),
                st')) ∧
  (let st1 := (DeleteInventory m st i).2 in
   absent_or_deleted st cm → absent_or_deleted st1 cm →
   (DeleteInventory m st i).1 = None ∧ (DeleteInventory m st1 i).1 = None).
Proof.
  intros cm.
  assert (∀ s, absent_or_deleted s cm → (DeleteInventory m s i).1 = None) as Hok.
  { intros s Hs. unfold DeleteInventory. fold cm. unfold absent_or_deleted in Hs.
    destruct (client_Delete s cm) as [[ce|] s'];
      cbn [of_client fst snd fmap option_fmap option_map] in *; [|done].
    by rewrite (Hs ce eq_refl). }
  split_and!; try done.
  - intros st' Hd. unfold DeleteInventory. fold cm. by rewrite Hd.
  - intros ce st' Hd Hnf. unfold DeleteInventory. fold cm. rewrite Hd.
    cbn [of_client fst snd fmap option_fmap option_map]. rewrite Hnf. reflexivity.
  - intros ce st' Hd Hnf. unfold DeleteInventory. fold cm. rewrite Hd.
    cbn [of_client fst snd fmap option_fmap option_map]. rewrite Hnf. reflexivity.
  - intros st1 H0 H1. split; by apply Hok.
Qed.

(** C7, as amended: a successful [ApplyInventory] patches the record under
    the inventory's key with the JSON encoding of the entries as the only
    data, under the key [inventory], with the [last-applied-time] annotation,
    a timestamp of RFC 3339 in UTC, and with the [source] and the [revision]
    annotation when the source and the revision are not empty. *)
Theorem ApplyInventory_writes (st st' : St) (now : Time) (i : Inventory) :
  ApplyInventory m st now i = (None, st') →
  ∃ data cm,
    json_Marshal (Entries i) = Ok data ∧
    client_Patch st cm Apply [ForceOwnership; FieldOwner (Field (Owner m))] = (None, st') ∧
    ObjectKeyFromObject cm = record_key i ∧
    Data cm = {[ "inventory" := data ]} ∧
    Annotations cm !! time_key = Some (Format_RFC3339 now) ∧
    is_RFC3339_UTC (Format_RFC3339 now) = true ∧
    (Source i ≠ "" → Annotations cm !! source_key = Some (Source i)) ∧
    (Revision i ≠ "" → Annotations cm !! revision_key = Some (Revision i)).
Proof.
  intros Ha. destruct (json_Marshal (Entries i)) as [data|je] eqn:Hm.
  - destruct (ApplyInventory_object st now i data Hm)
      as (cm & Heq & Hk & Hl & Hd & Ht & Hs & Hr).
    rewrite Heq in Ha. apply of_client_None in Ha.
    exists data, cm. split_and!; try done.
    + apply Format_RFC3339_layout.
    + intros Hne. by rewrite Hs, bool_decide_eq_true_2.
    + intros Hne. by rewrite Hr, bool_decide_eq_true_2.
  - unfold ApplyInventory in Ha. by rewrite Hm in Ha.
Qed.

(** C9: the object a successful [ApplyInventory] patches has the [source]
    annotation exactly when the source of the inventory is not empty and the
    [revision] annotation exactly when the revision is not empty, it always
    has the [last-applied-time] annotation, and an empty string is stored
    neither as source nor as revision. *)
Theorem ApplyInventory_annotations (st st' : St) (now : Time) (i : Inventory) :
  ApplyInventory m st now i = (None, st') →
  ∃ cm,
    client_Patch st cm Apply [ForceOwnership; FieldOwner (Field (Owner m))] = (None, st') ∧
    (is_Some (Annotations cm !! source_key) ↔ Source i ≠ "") ∧
    (is_Some (Annotations cm !! revision_key) ↔ Revision i ≠ "") ∧
    (∀ v, Annotations cm !! source_key = Some v → v = Source i) ∧
    (∀ v, Annotations cm !! revision_key = Some v → v = Revision i) ∧
    is_Some (Annotations cm !! time_key) ∧
    Annotations cm !! source_key ≠ Some "" ∧
    Annotations cm !! revision_key ≠ Some "".
Proof.
  intros Ha. destruct (json_Marshal (Entries i)) as [data|je] eqn:Hm.
  - destruct (ApplyInventory_object st now i data Hm)
      as (cm & Heq & Hk & Hl & Hd & Ht & Hs & Hr).
    rewrite Heq in Ha. apply of_client_None in Ha.
    exists cm. rewrite Hs, Hr, Ht.
    destruct (bool_decide_reflect (Source i ≠ "")) as [Hsne|Hse];
      destruct (bool_decide_reflect (Revision i ≠ "")) as [Hrne|Hre];
      split_and!; try done; try (by intros v [=]); try congruence;
      try (split; [by intros [v [=]] | done]);
      try (split; [done | by eexists]).
  - unfold ApplyInventory in Ha. by rewrite Hm in Ha.
Qed.



End StorageFacts.

(** ** Facts about the constructor and the diff *)


Section Filter.
Context {A : Type} (P : A → Prop) `{!∀ x, Decision (P x)}.

Lemma filter_none (l : list A) : (∀ x, x ∈ l → ¬ P x) → filter P l = [].
Proof.
  induction l as [|x l IH]; intros Hl; [done|].
  rewrite filter_cons_False by (apply Hl; left).
  apply IH. intros y Hy. apply Hl. by right.
Qed.

Lemma filter_all (l : list A) : (∀ x, x ∈ l → P x) → filter P l = l.
Proof.
  induction l as [|x l IH]; intros Hl; [done|].
  rewrite filter_cons_True by (apply Hl; left).
  f_equal. apply IH. intros y Hy. apply Hl. by right.
Qed.

End Filter.

(** The diff looks at the entries of the receiver and at the [id]s of the
    other inventory and at nothing else. *)
Lemma Diff_only_ids (order : list Entry → list Entry)
  (old old' new new' : Inventory) :
  Entries old' = Entries old →
  id <$> Entries new' = id <$> Entries new →
  Diff order old' new' = Diff order old new.
Proof. intros Ho Hn. unfold Diff, stale. by rewrite Ho, Hn. Qed.

Lemma stale_self (l : list Entry) : stale l l = [].
Proof.
  apply filter_none. intros e He Hne. apply Hne. by apply list_elem_of_fmap_2.
Qed.

Lemma stale_nil_r (l : list Entry) : stale l [] = l.
Proof. apply filter_all. intros e _. simpl. apply not_elem_of_nil. Qed.

Lemma elem_of_stale (old new : list Entry) (e : Entry) :
  e ∈ stale old new ↔ e ∈ old ∧ ∀ e', e' ∈ new → id e' ≠ id e.
Proof.
  unfold stale. rewrite list_elem_of_filter. split.
  - intros [Hid He]. split; [done|]. intros e' He' Heq. apply Hid.
    rewrite <- Heq. by apply list_elem_of_fmap_2.
  - intros [He Hid]. split; [|done].
    intros (e' & Heq & He')%list_elem_of_fmap. by apply (Hid e').
Qed.

(** C2: whatever order the diff returns its result in, [Diff] returns the
    entries of the old inventory whose [id] is not the [id] of an entry of
    the new one, each as often as the old inventory has it; it looks at the
    [id]s only, not at versions, sources or revisions; the diff of an
    inventory with itself is empty, the diff with an inventory without
    entries is all the entries, and the diff of an inventory without entries
    is empty. *)
Theorem Diff_spec (order : list Entry → list Entry) (old new : Inventory) :
  (∀ l, order l ≡ₚ l) →
  (∃ r, Diff order old new = Ok r ∧
        r ≡ₚ stale (Entries old) (Entries new) ∧
        ∀ e, e ∈ r ↔ e ∈ Entries old ∧ ∀ e', e' ∈ Entries new → id e' ≠ id e) ∧
  (∀ old' new', Entries old' = Entries old →
                id <$> Entries new' = id <$> Entries new →
                Diff order old' new' = Diff order old new) ∧
  Diff order old old = Ok [] ∧
  (∀ empty, Entries empty = [] →
            (∃ r, Diff order old empty = Ok r ∧ r ≡ₚ Entries old) ∧
            Diff order empty new = Ok []).
Proof.
  intros Hord.
  assert (order [] = []) as Hnil by (apply Permutation_nil_r, Hord).
  split_and!.
  - eexists. split; [reflexivity|]. split; [apply Hord|].
    intros e. rewrite (Hord _). apply elem_of_stale.
  - intros old' new'. apply Diff_only_ids.
  - unfold Diff. by rewrite stale_self, Hnil.
  - intros empty He. unfold Diff. rewrite He. split.
    + eexists. split; [reflexivity|]. by rewrite stale_nil_r.
    + change (stale [] (Entries new)) with (@nil Entry). by rewrite Hnil.
Qed.

(** ** Facts about the API server in memory *)

Lemma mem_PatchThenGet (c c' : Cluster) : PatchThenGet c c'.
Proof.
  intros cm opts Hp obj. simpl in *. unfold mem_Patch in Hp. unfold mem_Get.
  destruct (outage c); [done|]. injection Hp as <-. simpl.
  rewrite lookup_insert_eq. by exists cm.
Qed.

Lemma mem_Get_NotFound (c : Cluster) (k : ObjectKey) (obj : ConfigMap) :
  outage c = None →
  (mem_Get c k obj = Err (not_found k) ↔ objects c !! key_pair k = None).
Proof.
  intros Ho. unfold mem_Get. rewrite Ho.
  destruct (objects c !! key_pair k); split; done.
Qed.

Lemma mem_absent_or_deleted (c : Cluster) (cm : ConfigMap) :
  outage c = None → absent_or_deleted c cm.
Proof.
  intros Ho ce. simpl. unfold mem_Delete. rewrite Ho.
  destruct (objects c !! _); simpl; [done|]. by intros [= <-].
Qed.

Lemma mem_Delete_outage (c : Cluster) (cm : ConfigMap) :
  outage c = None → outage (mem_Delete c cm).2 = None.
Proof.
  intros Ho. unfold mem_Delete. rewrite Ho. by destruct (objects c !! _).
Qed.

(** The scenario of the two inventories: the first is applied, the second
    is the desired one, and the only stale entry is [ex_a]. *)
Example ApplyInventory_ex :
  ApplyInventory ex_storage ex_cluster ex_now ex_I1 = (None, ex_applied).
Proof. reflexivity. Qed.

Example GetStale_ex :
  GetInventoryStaleObjects ex_storage emptyInventory (Diff insertion_order) ex_applied ex_I2 = Ok [ex_a].
Proof. vm_compute. reflexivity. Qed.

(** ** The small codec decodes what it encodes *)

Lemma append_cons (c : ascii) (s t : string) :
  String c s +:+ t = String c (s +:+ t).
Proof. reflexivity. Qed.

Lemma length_append (a b : string) :
  String.length (a +:+ b) = (String.length a + String.length b)%nat.
Proof.
  induction a as [|c a IH]; [done|]. rewrite append_cons. simpl. by rewrite IH.
Qed.

Lemma strip_append (p s : string) : strip p (p +:+ s) = Some s.
Proof.
  induction p as [|c p IH]; [by destruct s|].
  rewrite append_cons. cbn [strip]. by rewrite bool_decide_eq_true_2.
Qed.

Lemma unquote_escape (s rest : string) :
  unquote (escape s +:+ String dquote rest) = Some (s, rest).
Proof.
  induction s as [|c s IH]; [reflexivity|].
  cbn [escape].
  destruct (bool_decide_reflect (c = dquote)) as [->|Hq];
    [|destruct (bool_decide_reflect (c = backslash)) as [->|Hb]];
    cbn [orb]; rewrite !append_cons; cbn [unquote].
  - change (bool_decide (backslash = dquote)) with false.
    change (bool_decide (backslash = backslash)) with true.
    change (bool_decide (dquote = dquote)) with true.
    cbn [orb]. by rewrite IH.
  - change (bool_decide (backslash = dquote)) with false.
    change (bool_decide (backslash = backslash)) with true.
    cbn [orb]. by rewrite IH.
  - rewrite (bool_decide_eq_false_2 (c = dquote)) by done.
    rewrite (bool_decide_eq_false_2 (c = backslash)) by done.
    by rewrite IH.
Qed.

Lemma decode_encode_entry (e : Entry) (rest : string) :
  decode_entry (encode_entry e rest) = Some (e, rest).
Proof.
  unfold decode_entry, encode_entry.
  rewrite strip_append. cbn [mbind option_bind].
  rewrite unquote_escape. cbn [mbind option_bind].
  rewrite strip_append. cbn [mbind option_bind].
  rewrite unquote_escape. cbn [mbind option_bind strip].
  change (bool_decide ("}"%char = "}"%char)) with true. cbn [mbind option_bind].
  by destruct e.
Qed.

Lemma length_encode_entry (e : Entry) (rest : string) :
  (String.length rest < String.length (encode_entry e rest))%nat.
Proof.
  unfold encode_entry.
  rewrite !length_append. cbn [String.length]. rewrite !length_append.
  cbn [String.length]. lia.
Qed.

Lemma length_encode_entries (es : list Entry) :
  (length es < String.length (encode_entries es))%nat.
Proof.
  induction es as [|e [|e' es] IH]; [simpl; lia| |].
  - pose proof (length_encode_entry e "]"). simpl in *. lia.
  - change (encode_entries (e :: e' :: es))
      with (encode_entry e (String "," (encode_entries (e' :: es)))).
    pose proof (length_encode_entry e (String "," (encode_entries (e' :: es)))).
    simpl in *. lia.
Qed.

Lemma decode_encode_entries (es : list Entry) (e : Entry) (fuel : nat) :
  (length es < fuel)%nat →
  decode_entries fuel (encode_entries (e :: es)) = Some (e :: es).
Proof.
  revert e fuel. induction es as [|e' es IH]; intros e [|fuel] Hf; try (simpl in Hf; lia).
  - cbn [decode_entries encode_entries]. by rewrite decode_encode_entry.
  - change (encode_entries (e :: e' :: es))
      with (encode_entry e (String "," (encode_entries (e' :: es)))).
    cbn [decode_entries]. rewrite decode_encode_entry. cbn [mbind option_bind].
    rewrite IH by (simpl in Hf; lia). reflexivity.
Qed.

Lemma mini_Unmarshal_object (s : string) :
  mini_Unmarshal (String "[" (String "{" s)) =
    match decode_entries (S (String.length s)) (String "{" s) with
    | Some es => Ok es
    | None => Err (SyntaxError "invalid character in inventory data")
    end.
Proof. reflexivity. Qed.

Lemma mini_decodes (es : list Entry) : decodes es.
Proof.
  intros data [= <-]. destruct es as [|e es]; [reflexivity|].
  change (mini_Unmarshal (String "[" (encode_entries (e :: es))) = Ok (e :: es)).
  assert (∃ s, encode_entries (e :: es) = String "{" s) as [s Hs].
  { destruct es; eexists; reflexivity. }
  pose proof (length_encode_entries (e :: es)) as Hl.
  rewrite Hs in Hl |- *. rewrite mini_Unmarshal_object, <- Hs.
  rewrite decode_encode_entries; [done|]. simpl in Hl. lia.
Qed.

(** ** The claims at the worked example *)

Lemma GetInventoryStaleObjects_spec_witness :
  GetInventoryStaleObjects ex_storage emptyInventory (Diff insertion_order) ex_cluster ex_I2 = Ok [] ∧
  GetInventoryStaleObjects ex_storage emptyInventory (Diff insertion_order) ex_down ex_I2 =
    Err (ClientErr (StatusError StatusReasonForbidden "configmaps is forbidden")).
Proof.
  split.
  - eapply (GetInventoryStaleObjects_spec ex_storage Entry emptyInventory (Diff insertion_order)
              ex_cluster ex_I2).
    reflexivity.
  - apply (GetInventoryStaleObjects_spec ex_storage Entry emptyInventory (Diff insertion_order)
             ex_down ex_I2); reflexivity.
Defined.

Lemma Diff_spec_witness :
  (∃ r, Diff insertion_order ex_I1 ex_I2 = Ok r ∧ r ≡ₚ [ex_a] ∧
        ∀ e, e ∈ r ↔ e ∈ Entries ex_I1 ∧
                     ∀ e', e' ∈ Entries ex_I2 → id e' ≠ id e) ∧
  Diff insertion_order ex_I1 ex_I1 = Ok [].
Proof.
  split.
  - apply (Diff_spec insertion_order ex_I1 ex_I2). done.
  - apply (Diff_spec insertion_order ex_I1 ex_I2). done.
Defined.




Lemma GetInventory_errors_witness :
  ∃ e, (GetInventory ex_storage ex_cluster ex_I1).1 = Some e ∧ IsNotFound e = true.
Proof.
  apply (proj1 (GetInventory_errors ex_storage ex_cluster ex_I1)).
  eexists. reflexivity.
Defined.

Lemma DeleteInventory_errors_witness :
  DeleteInventory ex_storage ex_down ex_I1 =
    (Some (ErrorfW "failed to delete ConfigMap/ns/app, error: "
             (ClientErr (StatusError StatusReasonForbidden
                           "configmaps is forbidden"))), ex_down) ∧
  (DeleteInventory ex_storage ex_applied ex_I1).1 = None ∧
  (DeleteInventory ex_storage (DeleteInventory ex_storage ex_applied ex_I1).2 ex_I1).1
    = None.
Proof.
  split.
  - apply (DeleteInventory_errors ex_storage ex_down ex_I1); reflexivity.
  - apply (DeleteInventory_errors ex_storage ex_applied ex_I1);
      by apply mem_absent_or_deleted.
Defined.

Lemma ApplyInventory_writes_witness :
  ∃ data cm,
    json_Marshal (Entries ex_I1) = Ok data ∧
    client_Patch ex_cluster cm Apply ex_opts = (None, ex_applied) ∧
    ObjectKeyFromObject cm = record_key ex_I1 ∧
    Data cm = {[ "inventory" := data ]} ∧
    Annotations cm !! "inventory.kustomizer.dev/last-applied-time" =
      Some "2021-10-31T09:05:00Z" ∧
    is_RFC3339_UTC "2021-10-31T09:05:00Z" = true ∧
    (Source ex_I1 ≠ "" →
     Annotations cm !! "inventory.kustomizer.dev/source" = Some "oci://registry/app") ∧
    (Revision ex_I1 ≠ "" →
     Annotations cm !! "inventory.kustomizer.dev/revision" = Some "6.0.1").
Proof.
  apply (ApplyInventory_writes ex_storage ex_cluster ex_applied ex_now ex_I1).
  reflexivity.
Defined.

(** A successful apply of an inventory without source and revision: the
    object it patches has neither annotation. *)
Lemma ApplyInventory_counterexample :
  ApplyInventory ex_storage ex_cluster ex_now ex_I2 = (None, ex_applied2) ∧
  ∀ cm, client_Patch ex_cluster cm Apply ex_opts = (None, ex_applied2) →
        Annotations cm !! "inventory.kustomizer.dev/source" = None ∧
        Annotations cm !! "inventory.kustomizer.dev/revision" = None.
Proof.
  split; [reflexivity|].
  intros cm Hp.
  assert (∃ cm0, objects ex_applied2 !! ("ns", "app") = Some cm0 ∧
                 Annotations cm0 !! "inventory.kustomizer.dev/source" = None ∧
                 Annotations cm0 !! "inventory.kustomizer.dev/revision" = None)
    as (cm0 & Hl & Hs & Hr) by (eexists; split_and!; reflexivity).
  assert (objects (mem_Patch ex_cluster cm Apply ex_opts).2 !! ("ns", "app")
          = Some cm0) as Hl'.
  { change (mem_Patch ex_cluster cm Apply ex_opts)
      with (client_Patch ex_cluster cm Apply ex_opts).
    rewrite Hp. exact Hl. }
  unfold mem_Patch in Hl'. cbn [ex_cluster outage objects snd] in Hl'.
  apply lookup_insert_Some in Hl' as [[_ ->]|[_ Hl']]; [done|].
  by rewrite lookup_empty in Hl'.
Qed.

Lemma GetInventory_frame_witness :
  let i' := (GetInventory ex_storage ex_applied ex_I2).2 in
  Name i' = "app" ∧ Namespace i' = "ns" ∧
  (@None error = None →
   ∃ cm, client_Get ex_applied (record_key ex_I2)
           (newConfigMap ex_storage "app" "ns") = Ok cm ∧
     (∀ v, Annotations cm !! "inventory.kustomizer.dev/source" = Some v →
           Source i' = v) ∧
     (Annotations cm !! "inventory.kustomizer.dev/source" = None →
      Source i' = Source ex_I2) ∧
     (∀ v, Annotations cm !! "inventory.kustomizer.dev/revision" = Some v →
           Revision i' = v) ∧
     (Annotations cm !! "inventory.kustomizer.dev/revision" = None →
      Revision i' = Revision ex_I2)).
Proof.
  intros i'.
  apply (GetInventory_frame ex_storage ex_applied ex_I2 i' None).
  reflexivity.
Defined.

Lemma ApplyInventory_annotations_witness :
  ∃ cm,
    client_Patch ex_cluster cm Apply ex_opts = (None, ex_applied2) ∧
    (is_Some (Annotations cm !! "inventory.kustomizer.dev/source") ↔
     Source ex_I2 ≠ "") ∧
    (is_Some (Annotations cm !! "inventory.kustomizer.dev/revision") ↔
     Revision ex_I2 ≠ "") ∧
    (∀ v, Annotations cm !! "inventory.kustomizer.dev/source" = Some v →
          v = Source ex_I2) ∧
    (∀ v, Annotations cm !! "inventory.kustomizer.dev/revision" = Some v →
          v = Revision ex_I2) ∧
    is_Some (Annotations cm !! "inventory.kustomizer.dev/last-applied-time") ∧
    Annotations cm !! "inventory.kustomizer.dev/source" ≠ Some "" ∧
    Annotations cm !! "inventory.kustomizer.dev/revision" ≠ Some "".
Proof.
  apply (ApplyInventory_annotations ex_storage ex_cluster ex_applied2 ex_now ex_I2).
  reflexivity.
Defined.


(** ** More on the storage: the loop, the success of a read, compositions *)

Lemma Inventory_eq (a b : Inventory) :
  Name a = Name b → Namespace a = Namespace b → Source a = Source b →
  Revision a = Revision b → Entries a = Entries b → a = b.
Proof. destruct a, b. simpl. by intros -> -> -> -> ->. Qed.

Section StorageCompositions.
Context {St : Type} {client : Client St} {codec : JSON}.
Variable m : InventoryStorage.

Variable Unstructured : Type.
Variable NewInventory : string → string → Inventory.
Variable Diff : Inventory → Inventory → result error (list Unstructured).

Lemma map_fold_read_annotations (anns : gmap string string) (i : Inventory) :
  map_fold (scan_annotation m) i anns = read_annotations m anns i.
Proof.
  destruct (scan_annotations m anns i) as (Hn & Hns & He & Hs & Hr).
  cbv zeta in *. by apply Inventory_eq.
Qed.

Lemma visit_read_annotations (l : list (string * string)) (i : Inventory) :
  NoDup (l.*1) →
  visit_annotations m l i = read_annotations m (list_to_map l) i.
Proof.
  revert i. induction l as [|[k v] l IH]; intros i Hnd.
  - by destruct i.
  - apply NoDup_cons in Hnd as [Hk Hnd].
    change (visit_annotations m ((k, v) :: l) i)
      with (visit_annotations m l (scan_annotation m k v i)).
    rewrite IH by done.
    destruct (scan_annotation_fields m k v i) as (Hn & Hns & He & Hs & Hr).
    pose proof (not_elem_of_list_to_map_1 (M := gmap string) l k Hk) as Hnone.
    apply Inventory_eq; cbn [read_annotations Name Namespace Source Revision
                             Entries list_to_map foldr uncurry fst snd];
      rewrite ?Hn, ?Hns, ?He, ?Hs, ?Hr; try done.
    + destruct (bool_decide_reflect (k = Group (Owner m) +:+ "/source")) as [->|Hne].
      * by rewrite lookup_insert_eq, Hnone.
      * by rewrite lookup_insert_ne.
    + destruct (bool_decide_reflect (k = Group (Owner m) +:+ "/revision")) as [->|Hne].
      * by rewrite lookup_insert_eq, Hnone.
      * by rewrite lookup_insert_ne.
Qed.

(** X1: in whatever order the annotations of a record are visited, the loop
    of [GetInventory] leaves the same inventory: the one with the source and
    the revision looked up under their two keys; every other annotation is
    without effect. *)
Theorem annotations_any_order (anns : gmap string string)
  (l : list (string * string)) (i : Inventory) :
  l ≡ₚ map_to_list anns →
  visit_annotations m l i = map_fold (scan_annotation m) i anns ∧
  visit_annotations m l i = read_annotations m anns i.
Proof.
  intros Hl. rewrite map_fold_read_annotations.
  assert (visit_annotations m l i = read_annotations m anns i) as ->; [|done].
  rewrite visit_read_annotations.
  - f_equal. symmetry. by apply list_to_map_flip.
  - rewrite Hl. apply NoDup_fst_map_to_list.
Qed.

Lemma GetInventory_None_iff (st : St) (i i' : Inventory) :
  GetInventory m st i = (None, i') ↔
  ∃ cm blob es,
    client_Get st (record_key i) (newConfigMap m (Name i) (Namespace i)) = Ok cm ∧
    Data cm !! "inventory" = Some blob ∧
    json_Unmarshal blob = Ok es ∧
    i' = read_annotations m (Annotations cm) (set_Entries es i).
Proof.
  pose proof (GetInventory_cases m st i) as Hc. cbv zeta in Hc.
  change inventoryKindName with "inventory" in Hc.
  destruct (client_Get st _ _) as [cm|ce].
  - destruct (Data cm !! "inventory") as [blob|] eqn:Hd.
    + destruct (json_Unmarshal blob) as [es|je] eqn:Hj; rewrite Hc.
      * rewrite map_fold_read_annotations. split.
        -- intros [= <-]. by exists cm, blob, es.
        -- intros (cm' & blob' & es' & [= <-] & Hd' & Hj' & ->).
           rewrite Hd in Hd'. injection Hd' as <-.
           rewrite Hj in Hj'. by injection Hj' as <-.
      * split; [intros [=]|].
        intros (cm' & blob' & es' & [= <-] & Hd' & Hj' & _).
        rewrite Hd in Hd'. injection Hd' as <-. congruence.
    + rewrite Hc. split; [intros [=]|].
      intros (cm' & blob' & es' & [= <-] & Hd' & _). congruence.
  - rewrite Hc. split; [intros [=]|]. by intros (cm' & blob' & es' & [=] & _).
Qed.

(** X2: [GetInventory] succeeds exactly when the client returns a record
    whose [inventory] blob decodes, and the inventory is then the one passed
    in with the decoded entries in place of its own and the source and the
    revision of the record's annotations. *)
Theorem GetInventory_success (st : St) (i i' : Inventory) :
  GetInventory m st i = (None, i') ↔
  ∃ cm blob es,
    client_Get st (record_key i) (newConfigMap m (Name i) (Namespace i)) = Ok cm ∧
    Data cm !! "inventory" = Some blob ∧
    json_Unmarshal blob = Ok es ∧
    i' = read_annotations m (Annotations cm) (set_Entries es i).
Proof. apply GetInventory_None_iff. Qed.

Lemma GetInventory_ext (st1 st2 : St) (i : Inventory) :
  client_Get st1 (record_key i) (newConfigMap m (Name i) (Namespace i)) =
  client_Get st2 (record_key i) (newConfigMap m (Name i) (Namespace i)) →
  GetInventory m st1 i = GetInventory m st2 i.
Proof.
  intros Heq. unfold GetInventory.
  change (ObjectKeyFromObject (newConfigMap m (Name i) (Namespace i)))
    with (record_key i).
  by rewrite Heq.
Qed.

Lemma GetInventory_after_Apply (st st' : St) (now : Time) (I J : Inventory) :
  ApplyInventory m st now I = (None, st') →
  PatchThenGet st st' →
  decodes (Entries I) →
  Name J = Name I → Namespace J = Namespace I →
  GetInventory m st' J =
    (None,
     {| Name := Name I; Namespace := Namespace I;
        Source := if bool_decide (Source I ≠ "") then Source I else Source J;
        Revision := if bool_decide (Revision I ≠ "") then Revision I
                    else Revision J;
        Entries := Entries I |}).
Proof.
  intros Ha Hpg Hdec Hn Hns.
  destruct (json_Marshal (Entries I)) as [data|je] eqn:Hm;
    [|unfold ApplyInventory in Ha; by rewrite Hm in Ha].
  destruct (ApplyInventory_object m st now I data Hm)
    as (cm & Heq & Hk & _ & Hd & _ & Hs & Hr).
  rewrite Heq in Ha. apply of_client_None in Ha.
  destruct (Hpg cm _ Ha (newConfigMap m (Name J) (Namespace J)))
    as (cm' & Hget & Hd' & Ha').
  apply GetInventory_None_iff. exists cm', data, (Entries I).
  split_and!.
  - rewrite <- Hget. f_equal. rewrite Hk. unfold record_key. by rewrite Hn, Hns.
  - by rewrite Hd', Hd, lookup_singleton_eq.
  - by apply Hdec.
  - unfold read_annotations. rewrite Ha', Hs, Hr. simpl. rewrite Hn, Hns.
    by destruct (bool_decide (Source I ≠ "")), (bool_decide (Revision I ≠ "")).
Qed.

(** X3: after a successful [ApplyInventory] of [I], on a client that reads
    back what was patched and with a codec that decodes what it encoded,
    [GetInventory] into any inventory [J] with the name and the namespace of
    [I] leaves the entries of [I], and the source and the revision of [I]
    where they are not empty; where they are empty, [J] keeps its own. *)
Theorem Apply_Get_any (st st' : St) (now : Time) (I J : Inventory) :
  ApplyInventory m st now I = (None, st') →
  PatchThenGet st st' →
  decodes (Entries I) →
  Name J = Name I → Namespace J = Namespace I →
  GetInventory m st' J =
    (None,
     {| Name := Name I; Namespace := Namespace I;
        Source := if bool_decide (Source I ≠ "") then Source I else Source J;
        Revision := if bool_decide (Revision I ≠ "") then Revision I
                    else Revision J;
        Entries := Entries I |}).
Proof. apply GetInventory_after_Apply. Qed.

(** X4: after a successful [ApplyInventory] of [I], on such a client and with
    such a codec, [GetInventoryStaleObjects] for a desired inventory with the
    name and the namespace of [I] returns the diff of [I] against the desired
    inventory, when the constructor returns inventories of the given identity
    without source and revision. *)
Theorem Apply_then_stale (st st' : St) (now : Time) (I D : Inventory) :
  ApplyInventory m st now I = (None, st') →
  PatchThenGet st st' →
  decodes (Entries I) →
  fresh_constructor NewInventory →
  Name D = Name I → Namespace D = Namespace I →
  GetInventoryStaleObjects m NewInventory Diff st' D = Diff I D.
Proof.
  intros Ha Hpg Hdec Hnew Hn Hns.
  destruct (Hnew (Name D) (Namespace D)) as (Hfn & Hfns & Hfs & Hfr).
  unfold GetInventoryStaleObjects.
  rewrite (GetInventory_after_Apply st st' now I _ Ha Hpg Hdec) by congruence.
  rewrite Hfs, Hfr.
  replace {| Name := Name I; Namespace := Namespace I;
             Source := if bool_decide (Source I ≠ "") then Source I else "";
             Revision := if bool_decide (Revision I ≠ "") then Revision I else "";
             Entries := Entries I |} with I.
  - by destruct (Diff I D).
  - apply Inventory_eq; simpl; try done.
    + destruct (bool_decide_reflect (Source I ≠ "")) as [?|Hes]; [done|].
      destruct (decide (Source I = "")); [done | by destruct Hes].
    + destruct (bool_decide_reflect (Revision I ≠ "")) as [?|Hes]; [done|].
      destruct (decide (Revision I = "")); [done | by destruct Hes].
Qed.

(** X5: the object [ApplyInventory] hands to the client is a [v1]
    [ConfigMap] and has no annotation besides [last-applied-time], [source]
    and [revision] under the owner's group. *)
Theorem ApplyInventory_nothing_else (st : St) (now : Time) (i : Inventory)
  (data : string) :
  json_Marshal (Entries i) = Ok data →
  ∃ cm,
    ApplyInventory m st now i =
      of_client (client_Patch st cm Apply
                   [ForceOwnership; FieldOwner (Field (Owner m))]) ∧
    APIVersion cm = "v1" ∧ Kind cm = "ConfigMap" ∧
    cm_Name cm = Name i ∧ cm_Namespace cm = Namespace i ∧
    ∀ k, is_Some (Annotations cm !! k) →
         k = Group (Owner m) +:+ "/last-applied-time" ∨
         k = Group (Owner m) +:+ "/source" ∨
         k = Group (Owner m) +:+ "/revision".
Proof.
  intros Hm. unfold ApplyInventory. rewrite Hm. cbv zeta.
  eexists. split; [reflexivity|].
  destruct (bool_decide (Source i ≠ "")), (bool_decide (Revision i ≠ ""));
    cbn [set_Data set_Annotations Annotations APIVersion Kind cm_Name
         cm_Namespace newConfigMap];
    (split_and!; [done..|]); intros k [v Hv];
    repeat (apply lookup_insert_Some in Hv as [[<- _]|[_ Hv]]; [by auto|]);
    try (apply lookup_singleton_Some in Hv as [<- _]; by auto).
Qed.

(** X6: when [ApplyInventory] fails, either the entries did not encode, the
    error is the codec's and the cluster is as it was, or the error is the
    one the client answered the patch with, as it is, and the cluster is as
    the patch left it. *)
Theorem ApplyInventory_failure (st st' : St) (now : Time) (i : Inventory)
  (e : error) :
  ApplyInventory m st now i = (Some e, st') →
  (∃ je, json_Marshal (Entries i) = Err je ∧ e = JsonErr je ∧ st' = st) ∨
  (∃ data cm ce,
     json_Marshal (Entries i) = Ok data ∧
     client_Patch st cm Apply [ForceOwnership; FieldOwner (Field (Owner m))] =
       (Some ce, st') ∧
     e = ClientErr ce ∧
     ObjectKeyFromObject cm = record_key i ∧
     Data cm = {[ "inventory" := data ]}).
Proof.
  intros Ha. destruct (json_Marshal (Entries i)) as [data|je] eqn:Hm.
  - right. destruct (ApplyInventory_object m st now i data Hm)
      as (cm & Heq & Hk & _ & Hd & _).
    rewrite Heq in Ha. unfold of_client in Ha.
    destruct (client_Patch st cm Apply _) as [[ce|] s] eqn:Hp; simpl in Ha;
      [|done].
    injection Ha as <- <-. exists data, cm, ce. by split_and!.
  - left. unfold ApplyInventory in Ha. rewrite Hm in Ha.
    injection Ha as <- <-. by exists je.
Qed.

(** X7: [GetInventoryStaleObjects] returns a list only when the client
    answered NotFound, and the list is then empty, or when the record was
    read and the diff returned the list; a record without the [inventory]
    key and a blob that does not decode make it fail. *)
Theorem GetInventoryStaleObjects_success (st : St) (i : Inventory) :
  let fresh := NewInventory (Name i) (Namespace i) in
  let obj := newConfigMap m (Name fresh) (Namespace fresh) in
  (∀ objs, GetInventoryStaleObjects m NewInventory Diff st i = Ok objs →
     (objs = [] ∧
      ∃ msg, client_Get st (record_key fresh) obj =
               Err (StatusError StatusReasonNotFound msg)) ∨
     (∃ existing, GetInventory m st fresh = (None, existing) ∧
                  Diff existing i = Ok objs)) ∧
  (∀ cm, client_Get st (record_key fresh) obj = Ok cm →
         Data cm !! "inventory" = None →
         ∃ msg, GetInventoryStaleObjects m NewInventory Diff st i =
                  Err (Errorf msg)) ∧
  (∀ cm blob je, client_Get st (record_key fresh) obj = Ok cm →
                 Data cm !! "inventory" = Some blob →
                 json_Unmarshal blob = Err je →
                 GetInventoryStaleObjects m NewInventory Diff st i =
                   Err (JsonErr je)).
Proof.
  intros fresh obj.
  pose proof (GetInventory_cases m st fresh) as Hc. cbv zeta in Hc.
  fold obj in Hc. change inventoryKindName with "inventory" in Hc.
  unfold GetInventoryStaleObjects. fold fresh.
  split_and!.
  - intros objs. destruct (client_Get st (record_key fresh) obj) as [cm|ce].
    + destruct (Data cm !! "inventory") as [blob|].
      * destruct (json_Unmarshal blob) as [es|je]; rewrite Hc; [|done].
        intros Hd. right. eexists. split; [done|].
        by destruct (Diff _ i).
      * rewrite Hc. done.
    + rewrite Hc. destruct ce as [[] msg|msg]; simpl; try done.
      intros [= <-]. left. split; [done|]. by exists msg.
  - intros cm Hget Hd. rewrite Hget, Hd in Hc. rewrite Hc. by eexists.
  - intros cm blob je Hget Hd Hj. rewrite Hget, Hd, Hj in Hc. by rewrite Hc.
Qed.

(** X8: an error [DeleteInventory] returns is never NotFound: it wraps the
    error the client answered the delete with, which is not NotFound, and the
    cluster is as the client's delete left it. *)
Theorem DeleteInventory_never_NotFound (st st' : St) (i : Inventory) (e : error) :
  DeleteInventory m st i = (Some e, st') →
  IsNotFound e = false ∧
  ∃ msg ce,
    e = ErrorfW msg (ClientErr ce) ∧
    IsNotFound (ClientErr ce) = false ∧
    client_Delete st (newConfigMap m (Name i) (Namespace i)) = (Some ce, st').
Proof.
  unfold DeleteInventory.
  destruct (client_Delete st _) as [[ce|] s];
    cbn [of_client fst snd fmap option_fmap option_map]; [|done].
  destruct (IsNotFound (ClientErr ce)) eqn:Hnf; cbn [negb]; [done|].
  intros [= <- <-]. split; [exact Hnf|]. by eexists _, ce.
Qed.

(** X9: on a client whose patch leaves the other records alone,
    [ApplyInventory] of one inventory, successful or not, leaves what
    [GetInventory] returns for an inventory of another name or namespace as
    it was. *)
Theorem ApplyInventory_other_record (st : St) (now : Time) (I J : Inventory) :
  PatchFrame st →
  record_key J ≠ record_key I →
  GetInventory m (ApplyInventory m st now I).2 J = GetInventory m st J.
Proof.
  intros Hf Hne. destruct (json_Marshal (Entries I)) as [data|je] eqn:Hm.
  - destruct (ApplyInventory_object m st now I data Hm) as (cm & Heq & Hk & _).
    rewrite Heq. apply GetInventory_ext. cbn [of_client snd].
    apply Hf. by rewrite Hk.
  - unfold ApplyInventory. by rewrite Hm.
Qed.

(** X10: on a client whose delete leaves the other records alone,
    [DeleteInventory] of one inventory, successful or not, leaves what
    [GetInventory] returns for an inventory of another name or namespace as
    it was. *)
Theorem DeleteInventory_other_record (st : St) (I J : Inventory) :
  DeleteFrame st →
  record_key J ≠ record_key I →
  GetInventory m (DeleteInventory m st I).2 J = GetInventory m st J.
Proof.
  intros Hf Hne. apply GetInventory_ext.
  replace (DeleteInventory m st I).2
    with (client_Delete st (newConfigMap m (Name I) (Namespace I))).2.
  - by apply Hf.
  - unfold DeleteInventory.
    destruct (client_Delete st _) as [[ce|] s]; [|done].
    cbn [of_client fst snd fmap option_fmap option_map].
    by destruct (negb _).
Qed.

(** X11: after a [DeleteInventory] that returns no error, on a client that
    answers NotFound to a read after a delete, [GetInventory] for the same
    name and namespace fails with NotFound and leaves the inventory as it
    is, and [GetInventoryStaleObjects] returns the empty list: nothing is
    stale once the record is gone. *)
Theorem Delete_then_stale (st st' : St) (I D : Inventory) :
  DeleteInventory m st I = (None, st') →
  DeleteThenGet st →
  fresh_constructor NewInventory →
  Name D = Name I → Namespace D = Namespace I →
  (∃ e, GetInventory m st' D = (Some e, D) ∧ IsNotFound e = true) ∧
  GetInventoryStaleObjects m NewInventory Diff st' D = Ok [].
Proof.
  intros Hdel Hdg Hnew Hn Hns.
  set (cm := newConfigMap m (Name I) (Namespace I)).
  assert (absent_or_deleted st cm ∧ st' = (client_Delete st cm).2) as [Habs ->].
  { unfold DeleteInventory in Hdel. fold cm in Hdel. unfold absent_or_deleted.
    destruct (client_Delete st cm) as [[ce|] s];
      cbn [of_client fst snd fmap option_fmap option_map] in *.
    - destruct (IsNotFound (ClientErr ce)) eqn:Hnf; cbn [negb] in Hdel; [|done].
      injection Hdel as <-. split; [|done]. by intros ? [= <-].
    - injection Hdel as <-. split; [|done]. by intros ? [=]. }
  assert (∀ J, Name J = Name I → Namespace J = Namespace I →
            ∃ msg, GetInventory m (client_Delete st cm).2 J =
                     (Some (ClientErr (StatusError StatusReasonNotFound msg)), J))
    as Hget.
  { intros J HJn HJns.
    destruct (Hdg cm (newConfigMap m (Name J) (Namespace J)) Habs) as [msg Hmsg].
    exists msg. pose proof (GetInventory_cases m (client_Delete st cm).2 J) as Hc.
    cbv zeta in Hc.
    replace (record_key J) with (ObjectKeyFromObject cm) in Hc
      by (unfold record_key; by rewrite HJn, HJns).
    by rewrite Hmsg in Hc. }
  split.
  - destruct (Hget D Hn Hns) as [msg ->]. by eexists.
  - unfold GetInventoryStaleObjects.
    destruct (Hnew (Name D) (Namespace D)) as (Hfn & Hfns & _).
    destruct (Hget (NewInventory (Name D) (Namespace D))) as [msg ->];
      [congruence..|done].
Qed.

End StorageCompositions.

(** ** The in-memory API server meets what the compositions ask *)

Lemma key_pair_inj (k k' : ObjectKey) : key_pair k = key_pair k' → k = k'.
Proof. destruct k, k'. by intros [= -> ->]. Qed.

Lemma mem_PatchFrame (c : Cluster) : PatchFrame c.
Proof.
  intros cm p opts k obj Hne. simpl. unfold mem_Patch, mem_Get.
  destruct (outage c) eqn:Ho; simpl; rewrite ?Ho; [done|].
  rewrite lookup_insert_ne; [done|]. intros Heq. by apply key_pair_inj in Heq.
Qed.

Lemma mem_DeleteFrame (c : Cluster) : DeleteFrame c.
Proof.
  intros cm k obj Hne. simpl. unfold mem_Delete, mem_Get.
  destruct (outage c) eqn:Ho; simpl; rewrite ?Ho; [done|].
  destruct (objects c !! key_pair (ObjectKeyFromObject cm)) eqn:Hl; simpl;
    rewrite ?Ho; [|done].
  rewrite lookup_delete_ne; [done|]. intros Heq. by apply key_pair_inj in Heq.
Qed.

Lemma mem_DeleteThenGet (c : Cluster) : DeleteThenGet c.
Proof.
  intros cm obj Habs. unfold absent_or_deleted in Habs. simpl in *.
  unfold mem_Delete, mem_Get in *.
  destruct (outage c) as [e|] eqn:Ho; simpl in *.
  - rewrite Ho. specialize (Habs e eq_refl).
    destruct e as [[] msg|msg]; try done. by exists msg.
  - destruct (objects c !! key_pair (ObjectKeyFromObject cm)) eqn:Hl; simpl.
    + rewrite lookup_delete_eq. by eexists.
    + rewrite Ho, Hl. by eexists.
Qed.

Lemma emptyInventory_fresh : fresh_constructor emptyInventory.
Proof. by intros name namespace. Qed.

(** ** The further properties at the worked example *)

Lemma annotations_any_order_witness :
  visit_annotations ex_storage (reverse (map_to_list ex_anns)) ex_I2 =
    read_annotations ex_storage ex_anns ex_I2 ∧
  Source (read_annotations ex_storage ex_anns ex_I2) = "oci://registry/app" ∧
  Revision (read_annotations ex_storage ex_anns ex_I2) = "6.0.1".
Proof.
  split_and!; [|reflexivity..].
  apply (annotations_any_order ex_storage ex_anns).
  apply reverse_Permutation.
Defined.

Lemma GetInventory_success_witness :
  GetInventory ex_storage ex_applied ex_I2 = (None, ex_I1).
Proof.
  apply (GetInventory_success ex_storage ex_applied ex_I2 ex_I1).
  eexists _, _, _. split_and!; reflexivity.
Defined.

Lemma Apply_Get_any_witness :
  GetInventory ex_storage ex_applied2 ex_I1 =
    (None,
     {| Name := "app"; Namespace := "ns"; Source := "oci://registry/app";
        Revision := "6.0.1"; Entries := [ex_b; ex_c; ex_d] |}).
Proof.
  apply (Apply_Get_any ex_storage ex_cluster ex_applied2 ex_now ex_I2 ex_I1).
  - reflexivity.
  - apply mem_PatchThenGet.
  - apply mini_decodes.
  - reflexivity.
  - reflexivity.
Defined.

Lemma Apply_then_stale_witness :
  GetInventoryStaleObjects ex_storage emptyInventory (Diff insertion_order) ex_applied ex_I2 =
    Diff insertion_order ex_I1 ex_I2.
Proof.
  apply (Apply_then_stale ex_storage Entry emptyInventory (Diff insertion_order)
           ex_cluster ex_applied ex_now ex_I1 ex_I2).
  - reflexivity.
  - apply mem_PatchThenGet.
  - apply mini_decodes.
  - apply emptyInventory_fresh.
  - reflexivity.
  - reflexivity.
Defined.

Lemma ApplyInventory_nothing_else_witness :
  ∃ cm,
    ApplyInventory ex_storage ex_cluster ex_now ex_I1 =
      of_client (client_Patch ex_cluster cm Apply ex_opts) ∧
    APIVersion cm = "v1" ∧ Kind cm = "ConfigMap" ∧
    cm_Name cm = "app" ∧ cm_Namespace cm = "ns" ∧
    ∀ k, is_Some (Annotations cm !! k) →
         k = "inventory.kustomizer.dev/last-applied-time" ∨
         k = "inventory.kustomizer.dev/source" ∨
         k = "inventory.kustomizer.dev/revision".
Proof.
  eapply (ApplyInventory_nothing_else ex_storage ex_cluster ex_now ex_I1).
  reflexivity.
Defined.

Lemma ApplyInventory_failure_witness :
  (∃ je, json_Marshal (Entries ex_I1) = Err je ∧
         ClientErr (StatusError StatusReasonForbidden "configmaps is forbidden") =
           JsonErr je ∧ ex_down = ex_down) ∨
  (∃ data cm ce,
     json_Marshal (Entries ex_I1) = Ok data ∧
     client_Patch ex_down cm Apply ex_opts = (Some ce, ex_down) ∧
     ClientErr (StatusError StatusReasonForbidden "configmaps is forbidden") =
       ClientErr ce ∧
     ObjectKeyFromObject cm = record_key ex_I1 ∧
     Data cm = {[ "inventory" := data ]}).
Proof.
  apply (ApplyInventory_failure ex_storage ex_down ex_down ex_now ex_I1).
  reflexivity.
Defined.

Lemma GetInventoryStaleObjects_success_witness :
  ∃ msg, GetInventoryStaleObjects ex_storage emptyInventory (Diff insertion_order) ex_corrupt ex_I2 =
           Err (Errorf msg).
Proof.
  eapply (GetInventoryStaleObjects_success ex_storage Entry emptyInventory (Diff insertion_order)
            ex_corrupt ex_I2); reflexivity.
Defined.

Lemma DeleteInventory_never_NotFound_witness :
  let e := (ErrorfW "failed to delete ConfigMap/ns/app, error: "
              (ClientErr (StatusError StatusReasonForbidden
                            "configmaps is forbidden"))) in
  IsNotFound e = false ∧
  ∃ msg ce,
    e = ErrorfW msg (ClientErr ce) ∧
    IsNotFound (ClientErr ce) = false ∧
    client_Delete ex_down (newConfigMap ex_storage "app" "ns") = (Some ce, ex_down).
Proof.
  intros e.
  apply (DeleteInventory_never_NotFound ex_storage ex_down ex_down ex_I1 e).
  reflexivity.
Defined.

Lemma ApplyInventory_other_record_witness :
  GetInventory ex_storage ex_both ex_I2 = GetInventory ex_storage ex_applied ex_I2.
Proof.
  apply (ApplyInventory_other_record ex_storage ex_applied ex_now ex_I3 ex_I2).
  - apply mem_PatchFrame.
  - done.
Defined.

Lemma DeleteInventory_other_record_witness :
  GetInventory ex_storage (DeleteInventory ex_storage ex_both ex_I3).2 ex_I2 =
  GetInventory ex_storage ex_both ex_I2.
Proof.
  apply (DeleteInventory_other_record ex_storage ex_both ex_I3 ex_I2).
  - apply mem_DeleteFrame.
  - done.
Defined.

Lemma Delete_then_stale_witness :
  let st' := (DeleteInventory ex_storage ex_applied ex_I1).2 in
  (∃ e, GetInventory ex_storage st' ex_I2 = (Some e, ex_I2) ∧ IsNotFound e = true) ∧
  GetInventoryStaleObjects ex_storage emptyInventory (Diff insertion_order) st' ex_I2 = Ok [].
Proof.
  intros st'.
  apply (Delete_then_stale ex_storage Entry emptyInventory (Diff insertion_order)
           ex_applied st' ex_I1 ex_I2).
  - reflexivity.
  - apply mem_DeleteThenGet.
  - apply emptyInventory_fresh.
  - reflexivity.
  - reflexivity.
Defined.
